(** * Voice-isolation GUI: capture lifecycle and helpers

    A shallow embedding of [main.py] (the [running] flag, the Start and Stop
    callbacks and the capture thread [capture_audio]) and of
    [utils/utils.py] ([create_protobuf_any_value]), with the properties of
    the capture pipeline stated over it.

    The GUI thread and the capture threads share the module-level variable
    [running] and the Tk label [status_label].  Their interleaving is
    modelled by an explicit scheduler event list: each event is either a
    button callback, run to completion, or one statement of one capture
    thread. *)

From Stdlib Require Import ZArith Lia Strings.Byte Floats.
From Equations Require Import Equations.
From stdpp Require Import base list strings.

Open Scope nat_scope.

(** ** Exceptions and results *)

(** The exceptions that matter here.  PyAudio and simpleaudio report device
    faults as [OSError]; the specification calls them [DeviceError].
    Nothing in the source raises [FormatError]; it is listed because the
    specification names it. *)
Inductive exn : Type :=
  | DeviceError
  | FormatError
  | ValueError (msg : string).

(** A Python call either returns a value or raises. *)
Inductive outcome (A : Type) : Type :=
  | Returns (a : A)
  | Raises (e : exn).
Arguments Returns {A} a.
Arguments Raises {A} e.

Definition accepted {A : Type} (r : outcome A) : Prop :=
  match r with Returns _ => True | Raises _ => False end.

Definition rejected_with {A : Type} (e : exn) (r : outcome A) : Prop :=
  r = Raises e.

(** ** Audio configuration (main.py, lines 14-17) *)

Definition bytes : Type := list byte.

Definition CHANNELS : nat := 2.
Definition RATE : Z := 16000%Z.
Definition CHUNK : nat := 1024.
(** [FORMAT = pyaudio.paInt16]: sixteen bits, two bytes per sample. *)
Definition BITS_PER_SAMPLE : nat := 16.

(** Length in bytes of one frame: frameSize * channels * (bitsPerSample/8). *)
Definition frame_bytes : nat := CHUNK * CHANNELS * (BITS_PER_SAMPLE / 8).

Definition valid_frame (audio_data : bytes) : Prop :=
  length audio_data = frame_bytes.

(** ** The filter stage (main.py, lines 86-88) *)

(** [process_audio] has a single statement, [return audio_data]. *)
Definition process_audio (audio_data : bytes) : outcome bytes :=
  Returns audio_data.

(** ** Shared state of the process *)

(** The text shown by [status_label]; only two texts are ever written. *)
Inductive StatusText : Type :=
  | StatusIdle      (* "Status: Idle" *)
  | StatusRunning.  (* "Status: Running" *)

(** Program counter of one [capture_audio] thread, one constructor per
    statement; locals that are live at that point are carried along. *)
Inductive pc : Type :=
  | AtSetRunning                       (* line 68: running = True *)
  | AtOpen                             (* lines 69-72: p.open(...) *)
  | AtLabelRunning                     (* line 74 *)
  | AtWhile                            (* line 76: while running *)
  | AtRead                             (* line 77: stream.read(CHUNK) *)
  | AtProcess (audio_data : bytes)     (* line 78 *)
  | AtPlay (filtered_audio : bytes)    (* line 79 *)
  | AtClose                            (* lines 81-83 *)
  | AtLabelIdle                        (* line 84 *)
  | Finished                           (* returned *)
  | Crashed (e : exn).                 (* ended by an uncaught exception *)

(** A thread is live until it returns or dies. *)
Definition live (c : pc) : bool :=
  match c with
  | Finished | Crashed _ => false
  | _ => true
  end.

(** A thread holds an open stream from the successful [p.open] up to
    [stream.close()]. *)
Definition holds_device (c : pc) : bool :=
  match c with
  | AtLabelRunning | AtWhile | AtRead | AtProcess _ | AtPlay _ | AtClose => true
  | _ => false
  end.

(** Inside the [while] statement: at its test or in its body. *)
Definition in_loop (c : pc) : bool :=
  match c with
  | AtWhile | AtRead | AtProcess _ | AtPlay _ => true
  | _ => false
  end.


Record World : Type := mkWorld {
  running : bool;              (* the global flag of line 24 *)
  status_label : StatusText;   (* text of the Tk label *)
  threads : list pc;           (* capture threads, in launch order *)
  opened : nat;                (* successful p.open calls so far *)
  closed : nat;                (* stream.close calls so far *)
  played : list bytes          (* buffers handed to wave_obj.play, oldest first *)
}.

Definition set_running (b : bool) (w : World) : World :=
  mkWorld b (status_label w) (threads w) (opened w) (closed w) (played w).
Definition set_status (t : StatusText) (w : World) : World :=
  mkWorld (running w) t (threads w) (opened w) (closed w) (played w).
Definition set_threads (ts : list pc) (w : World) : World :=
  mkWorld (running w) (status_label w) ts (opened w) (closed w) (played w).
Definition set_pc (tid : nat) (c : pc) (w : World) : World :=
  set_threads (<[tid := c]> (threads w)) w.
Definition incr_opened (w : World) : World :=
  mkWorld (running w) (status_label w) (threads w) (S (opened w)) (closed w) (played w).
Definition incr_closed (w : World) : World :=
  mkWorld (running w) (status_label w) (threads w) (opened w) (S (closed w)) (played w).
Definition push_played (b : bytes) (w : World) : World :=
  mkWorld (running w) (status_label w) (threads w) (opened w) (closed w) (played w ++ [b]).

(** Module load: [running = True] (line 24), the label is created with the
    text "Status: Idle" (line 131), no thread exists. *)
Definition initial : World := mkWorld true StatusIdle [] 0 0 [].

(** ** The button callbacks *)

(** [start_voice_filtering] (lines 95-99): return at once when the flag is
    set, otherwise launch a thread on [capture_audio].  The new thread has
    not run any statement yet. *)
Definition start_voice_filtering (w : World) : World :=
  if running w then w
  else set_threads (threads w ++ [AtSetRunning]) w.

(** [stop_voice_filtering] (lines 101-105). *)
Definition stop_voice_filtering (w : World) : World :=
  set_status StatusIdle (set_running false w).

(** ** The capture thread *)

(** What the audio hardware answers when a statement touches it. *)
Inductive device : Type :=
  | DevOk (data : bytes)   (* success; [data] is what [stream.read] returns *)
  | DevFail.               (* the call raises *)

(** One statement of thread [tid] in [capture_audio] (lines 65-84).  [d] is
    consulted by [p.open], [stream.read] and [play_audio] only.  An
    uncaught exception ends the thread and nothing else: Python reports it
    through [threading.excepthook] and the other threads go on. *)
Definition capture_audio_step (tid : nat) (d : device) (w : World) : World :=
  match threads w !! tid with
  | None => w
  | Some c =>
    match c with
    | AtSetRunning => set_pc tid AtOpen (set_running true w)
    | AtOpen =>
        match d with
        | DevOk _ => set_pc tid AtLabelRunning (incr_opened w)
        | DevFail => set_pc tid (Crashed DeviceError) w
        end
    | AtLabelRunning => set_pc tid AtWhile (set_status StatusRunning w)
    | AtWhile =>
        if running w then set_pc tid AtRead w else set_pc tid AtClose w
    | AtRead =>
        match d with
        | DevOk audio_data => set_pc tid (AtProcess audio_data) w
        | DevFail => set_pc tid (Crashed DeviceError) w
        end
    | AtProcess audio_data =>
        match process_audio audio_data with
        | Returns filtered_audio => set_pc tid (AtPlay filtered_audio) w
        | Raises e => set_pc tid (Crashed e) w
        end
    | AtPlay filtered_audio =>
        match d with
        | DevOk _ => set_pc tid AtWhile (push_played filtered_audio w)
        | DevFail => set_pc tid (Crashed DeviceError) w
        end
    | AtClose => set_pc tid AtLabelIdle (incr_closed w)
    | AtLabelIdle => set_pc tid Finished (set_status StatusIdle w)
    | Finished | Crashed _ => w
    end
  end.

(** ** Scheduling *)

Inductive event : Type :=
  | Start                              (* the Start button *)
  | Stop                               (* the Stop button *)
  | Thread (tid : nat) (d : device).   (* one statement of a capture thread *)

Definition step (e : event) (w : World) : World :=
  match e with
  | Start => start_voice_filtering w
  | Stop => stop_voice_filtering w
  | Thread tid d => capture_audio_step tid d w
  end.

(** Run a schedule, first event first. *)
Fixpoint exec (tr : list event) (w : World) : World :=
  match tr with
  | [] => w
  | e :: tr' => exec tr' (step e w)
  end.

Inductive reachable : World -> Prop :=
  | reach_initial : reachable initial
  | reach_step e w : reachable w -> reachable (step e w).

Definition is_stop (e : event) : bool :=
  match e with Stop => true | _ => false end.

(** ** The capture state of the specification, read off the code *)

Inductive CaptureState : Type := Idle | Running | Stopping.

(** The flag is the state: set means Running; cleared means Stopping while
    some capture thread is still alive, Idle otherwise. *)
Definition capture_state (w : World) : CaptureState :=
  if running w then Running
  else if existsb live (threads w) then Stopping
  else Idle.

(** Number of capture loops that currently hold an open stream. *)
Definition sessions (w : World) : nat :=
  length (filter (fun c => holds_device c = true) (threads w)).

(** ** Protobuf wrapping (utils/utils.py, lines 270-299) *)

(** The Python values the function can be handed.  The last three stand
    for the values that are none of bool, int, float, str. *)
#[warnings="-register-all"]
Inductive PyValue : Type :=
  | PyBool (b : bool)
  | PyInt (v : Z)
  | PyFloat (x : float)
  | PyStr (s : string)
  | PyNone
  | PyBytes (b : bytes)
  | PyList (l : list PyValue).

Inductive PyClass : Type := cls_bool | cls_int | cls_float | cls_str.

(** [isinstance(value, cls)]; [bool] is a subclass of [int]. *)
Definition isinstance (value : PyValue) (cls : PyClass) : bool :=
  match value, cls with
  | PyBool _, cls_bool => true
  | PyBool _, cls_int => true
  | PyInt _, cls_int => true
  | PyFloat _, cls_float => true
  | PyStr _, cls_str => true
  | _, _ => false
  end.









(** ** Some schedules *)

(** Stop, Start, then the new thread runs up to its first [stream.read]:
    one capture session in the middle of its first frame. *)
Definition one_session : list event :=
  [Stop; Start;
   Thread 0 DevFail;        (* running = True; the device is not touched *)
   Thread 0 (DevOk []);     (* p.open succeeds *)
   Thread 0 DevFail;        (* label: Running *)
   Thread 0 DevFail].       (* while running: enter the body *)

(** The same session, stopped before the loop has looked at the flag. *)
Definition stopping_session : list event := one_session ++ [Stop].

(** Start pressed twice before the first thread has set the flag. *)
Definition double_start : list event :=
  [Stop; Start; Start;
   Thread 0 DevFail; Thread 1 DevFail;
   Thread 0 (DevOk []); Thread 1 (DevOk [])].

(** Start with no input device: the thread sets the flag, then [p.open]
    raises. *)
Definition start_without_device : list event :=
  [Stop; Start; Thread 0 DevFail; Thread 0 DevFail].

(** A session whose first [stream.read] raises. *)
Definition read_fault : list event := one_session ++ [Thread 0 DevFail].


(** Thread [tid] runs alone, the device answering [ds] in turn. *)
Definition run_alone (tid : nat) (ds : list device) : list event :=
  map (Thread tid) ds.


(** The statements of the loop that call into the audio device. *)
Definition device_call (c : pc) : bool :=
  match c with AtRead | AtPlay _ => true | _ => false end.

(** Past the loop test or about to take it: the points from which a
    cleared flag leads straight to the epilogue of [capture_audio]. *)
Definition exiting (c : pc) : bool :=
  match c with AtWhile | AtClose | AtLabelIdle => true | _ => false end.



(** Invariant linking the flag, the label and the threads: when the flag
    is cleared and the label nevertheless says Running, the thread that
    wrote the label is on its way to the epilogue and will write Idle. *)
Definition label_inv (w : World) : Prop :=
  running w = false -> status_label w = StatusRunning ->
  exists tid c, threads w !! tid = Some c /\ exiting c = true.


(** ** Command-line helpers (utils/utils.py) *)

(** The exceptions raised by the helpers. *)
Inductive py_error : Type :=
  | RuntimeError (msg : string)
  | FileNotFoundError (file_path : string).

Inductive py_result (A : Type) : Type :=
  | Val (a : A)
  | Exc (e : py_error).
Arguments Val {A} a.
Arguments Exc {A} e.

Definition bind {A B : Type} (r : py_result A) (k : A -> py_result B) : py_result B :=
  match r with
  | Val a => k a
  | Exc e => Exc e
  end.

Notation "x <- r ;; k" := (bind r (fun x => k))
  (at level 100, r at next level, right associativity).

(** The attributes of the parsed [argparse.Namespace] the helpers read.
    An option declared with [type=str] holds [None] or a string. *)
Record Namespace : Type := mkNamespace {
  ssl_mode : string;
  ssl_key : option string;
  ssl_cert : option string;
  ssl_root_cert : option string;
  preview_mode : bool;
  api_key : option string;
  function_id : option string
}.

(** Python truth value of such an attribute: [None] and the empty string
    are false. *)
Definition truthy (o : option string) : bool :=
  match o with
  | Some s => negb (String.eqb s "")
  | None => false
  end.

Definition MTLS_MESSAGE : string :=
  "If --ssl-mode is MTLS, --ssl-key, --ssl-cert and --ssl-root-cert are required.".
Definition TLS_MESSAGE : string :=
  "If --ssl-mode is TLS, --ssl-root-cert is required.".
Definition PREVIEW_MESSAGE : string :=
  "If --preview-mode is specified, both --api-key and --function-id are required.".

(** [validate_ssl_args] (lines 97-113). *)
Definition validate_ssl_args (args : Namespace) : py_result unit :=
  if String.eqb (ssl_mode args) "MTLS" then
    if negb (truthy (ssl_key args) && truthy (ssl_cert args)
             && truthy (ssl_root_cert args))
    then Exc (RuntimeError MTLS_MESSAGE)
    else Val tt
  else if String.eqb (ssl_mode args) "TLS" then
    if negb (truthy (ssl_root_cert args))
    then Exc (RuntimeError TLS_MESSAGE)
    else Val tt
  else Val tt.

(** [validate_preview_args] (lines 116-129). *)
Definition validate_preview_args (args : Namespace) : py_result unit :=
  if preview_mode args then
    if negb (truthy (api_key args)) || negb (truthy (function_id args))
    then Exc (RuntimeError PREVIEW_MESSAGE)
    else Val tt
  else Val tt.

(** ["{}".format(x)] for an attribute: [None] prints as "None". *)
Definition format_attr (o : option string) : string :=
  match o with
  | Some s => s
  | None => "None"
  end.

(** [create_request_metadata] (lines 132-146): a pair of header entries,
    or [None]. *)
Definition create_request_metadata (args : Namespace)
  : option ((string * string) * (string * option string)) :=
  if preview_mode args then
    Some (("authorization", "Bearer " +:+ format_attr (api_key args)),
          ("function-id", function_id args))
  else None.

(** The files on disk: the content of each path that can be opened. *)
Definition FileSystem : Type := string -> option bytes.

(** [read_file_content] (lines 163-173); [open] raises for a missing
    file. *)
Definition read_file_content (fs : FileSystem) (file_path : string)
  : py_result bytes :=
  match fs file_path with
  | Some content => Val content
  | None => Exc (FileNotFoundError file_path)
  end.

(** What [grpc.ssl_channel_credentials] is called with. *)
Record ChannelCredentials : Type := mkCredentials {
  root_certificates : bytes;
  private_key : option bytes;
  certificate_chain : option bytes
}.

(** The path held by an attribute that has been found truthy. *)
Definition path_of (o : option string) : string :=
  match o with
  | Some s => s
  | None => ""
  end.

(** [create_channel_credentials] (lines 236-267).  The second branch is a
    plain [else]: it is taken for every mode other than MTLS. *)
Definition create_channel_credentials (fs : FileSystem) (args : Namespace)
  : py_result ChannelCredentials :=
  if String.eqb (ssl_mode args) "MTLS" then
    if negb (truthy (ssl_key args) && truthy (ssl_cert args)
             && truthy (ssl_root_cert args))
    then Exc (RuntimeError MTLS_MESSAGE)
    else
      key <- read_file_content fs (path_of (ssl_key args)) ;;
      chain <- read_file_content fs (path_of (ssl_cert args)) ;;
      root <- read_file_content fs (path_of (ssl_root_cert args)) ;;
      Val (mkCredentials root (Some key) (Some chain))
  else
    if negb (truthy (ssl_root_cert args))
    then Exc (RuntimeError TLS_MESSAGE)
    else
      root <- read_file_content fs (path_of (ssl_root_cert args)) ;;
      Val (mkCredentials root None None).

(** ** MP4 inspection (utils/utils.py, lines 193-233) *)

(** [int.from_bytes(b, byteorder="big")]. *)
Definition from_bytes_big (b : bytes) : N :=
  fold_left (fun acc x => (acc * 256 + Byte.to_N x)%N) b 0%N.

(** [data[lo:hi]] for bounds that are not negative: Python clamps both to
    the length of [data]. *)
Definition py_slice (lo hi : N) (data : bytes) : bytes :=
  let n := N.of_nat (length data) in
  drop (N.to_nat (N.min lo n)) (take (N.to_nat (N.min hi n)) data).

Fixpoint bytes_eqb (a b : bytes) : bool :=
  match a, b with
  | [], [] => true
  | x :: a', y :: b' => Byte.eqb x y && bytes_eqb a' b'
  | _, _ => false
  end.

(** [b"ftyp"] and [b"moov"]. *)
Definition FTYP : bytes := [x66; x74; x79; x70].
Definition MOOV : bytes := [x6d; x6f; x6f; x76].

(** What [check_streamable] hands back: a bool on two of its paths, the
    tuple [(False, -1)] on the third. *)
Inductive StreamableResult : Type :=
  | JustBool (b : bool)
  | BoolAndSize (b : bool) (size : Z).

(** Truth value of such a result in an [if]: a tuple of two items is
    true whatever it holds. *)
Definition result_truth (r : StreamableResult) : bool :=
  match r with
  | JustBool b => b
  | BoolAndSize _ _ => true
  end.

Definition TOO_SMALL_MESSAGE : string :=
  "MP4 file is too small to check if it is streamable".

Definition check_streamable (fs : FileSystem) (file_path : string)
  : py_result StreamableResult :=
  match fs file_path with
  | None => Exc (FileNotFoundError file_path)
  | Some content =>
      let mp4_header_data := take 40 content in
      if length mp4_header_data <? 40 then
        Exc (RuntimeError TOO_SMALL_MESSAGE)
      else
        let ftyp_size := from_bytes_big (py_slice 0 4 mp4_header_data) in
        if negb (bytes_eqb (py_slice 4 8 mp4_header_data) FTYP) then
          Val (BoolAndSize false (-1))
        else
          let next_atom_type :=
            py_slice (ftyp_size + 4) (ftyp_size + 8) mp4_header_data in
          if bytes_eqb next_atom_type MOOV
          then Val (JustBool true)
          else Val (JustBool false)
  end.

(** ** CSV batches (utils/utils.py, lines 176-190) *)

Definition csv_row : Type := list string.

Definition inspect {A : Type} (a : A) : {b : A | a = b} := exist _ a eq_refl.

(** [roi_csv_reader]: the batches the generator yields when it is run to
    the end, [reader] being the rows the CSV reader has not handed out
    yet.  [itertools.islice(reader, row_count)] takes the next
    [row_count] rows, fewer at the end of the input. *)
Equations? roi_csv_reader (reader : list csv_row) (row_count : nat)
  : list (list csv_row) by wf (length reader) lt :=
  roi_csv_reader reader row_count with inspect (take row_count reader) := {
    | exist _ [] _ => [];
    | exist _ (r :: rows) _ =>
        (r :: rows) :: roi_csv_reader (drop row_count reader) row_count }.
Proof.
  rewrite length_drop.
  destruct row_count as [| n]; [discriminate |].
  destruct reader as [| r0 reader]; [discriminate |]. simpl. lia.
Qed.

(** ** Boot video (main.py, lines 33-63) *)

Definition image : Type := bytes.

(** What the user sees during start-up. *)
Record Screen : Type := mkScreen {
  root_visible : bool;         (* the main window is shown *)
  start_gui_calls : nat;       (* calls of [start_gui] *)
  video_windows : nat;         (* video windows currently open *)
  shown : list image;          (* images put on [video_label], oldest first *)
  cap_released : nat;          (* calls of [cap.release] *)
  printed : list string        (* lines written by [print] *)
}.

(** Line 113: the main window is withdrawn before the video starts. *)
Definition boot_screen : Screen := mkScreen false 0 0 [] 0 [].

Definition NO_VIDEO_MESSAGE : string :=
  "⚠️ Error: Could not open video file!".

(** [start_gui] (lines 61-63). *)
Definition start_gui (s : Screen) : Screen :=
  mkScreen true (S (start_gui_calls s)) (video_windows s) (shown s)
    (cap_released s) (printed s).

Section BootVideo.
(** [cv2.cvtColor(frame, cv2.COLOR_BGR2RGB)] followed by the conversion
    to a Tk image. *)
Variable to_photo : image -> image.

(** [update_frame] (lines 45-57), over the frames [cap.read] still
    delivers; each call handles one frame and re-arms itself with
    [video_window.after]. *)
Fixpoint update_frame (frames : list image) (s : Screen) : Screen :=
  match frames with
  | frame :: rest =>
      update_frame rest
        (mkScreen (root_visible s) (start_gui_calls s) (video_windows s)
           (shown s ++ [to_photo frame]) (cap_released s) (printed s))
  | [] =>
      start_gui
        (mkScreen (root_visible s) (start_gui_calls s) (pred (video_windows s))
           (shown s) (S (cap_released s)) (printed s))
  end.

(** [play_bootup_video] (lines 33-59); [video] is [None] when the file
    cannot be opened. *)
Definition play_bootup_video (video : option (list image)) (s : Screen) : Screen :=
  match video with
  | None =>
      start_gui
        (mkScreen (root_visible s) (start_gui_calls s) (video_windows s)
           (shown s) (cap_released s) (printed s ++ [NO_VIDEO_MESSAGE]))
  | Some frames =>
      update_frame frames
        (mkScreen (root_visible s) (start_gui_calls s) (S (video_windows s))
           (shown s) (cap_released s) (printed s))
  end.
End BootVideo.

(** The atom size [check_streamable] reads (line 221): the first four
    bytes of the file, big-endian. *)
Definition ftyp_size_of (content : bytes) : N :=
  from_bytes_big (take 4 content).

(** The same arguments with another [--ssl-mode]. *)
Definition with_ssl_mode (mode : string) (args : Namespace) : Namespace :=
  mkNamespace mode (ssl_key args) (ssl_cert args) (ssl_root_cert args)
    (preview_mode args) (api_key args) (function_id args).


(** ** Bookkeeping for the capture pipeline *)

(** One if the thread holds an open stream, zero otherwise. *)
Definition held (c : pc) : nat := if holds_device c then 1 else 0.



(** The event is not a failing device call. *)
Definition fault_free (e : event) : bool :=
  match e with
  | Thread _ DevFail => false
  | _ => true
  end.

(** ** Sample inputs *)

(** A whole session without a device fault: started, one frame captured
    and played, stopped, stream closed. *)
Definition clean_session : list event :=
  [Stop; Start;
   Thread 0 (DevOk []); Thread 0 (DevOk []); Thread 0 (DevOk []);
   Thread 0 (DevOk []);            (* while running: enter the body *)
   Thread 0 (DevOk [x01; x02]);    (* stream.read *)
   Thread 0 (DevOk []);            (* process_audio *)
   Thread 0 (DevOk []);            (* play_audio *)
   Stop;
   Thread 0 (DevOk []); Thread 0 (DevOk []); Thread 0 (DevOk [])].

(** A session whose thread stands at the loop test. *)
Definition session_at_loop_test : list event :=
  [Stop; Start;
   Thread 0 (DevOk []); Thread 0 (DevOk []); Thread 0 (DevOk [])].

(** The first 40 bytes of an MP4 whose 32-byte ftyp atom is followed at
    once by the moov atom. *)
Definition streamable_header : bytes :=
  [x00; x00; x00; x20] ++ FTYP ++ repeat x00 24
  ++ [x00; x00; x00; x08] ++ MOOV.

Definition sample_fs : FileSystem :=
  fun file_path =>
    if String.eqb file_path "key.pem" then Some [x01]
    else if String.eqb file_path "cert.pem" then Some [x02]
    else if String.eqb file_path "ca.pem" then Some [x03]
    else None.

Definition mtls_args : Namespace :=
  mkNamespace "MTLS" (Some "key.pem") (Some "cert.pem") (Some "ca.pem")
    false None None.

(** [--ssl-mode DISABLED] with the root certificate option set. *)
Definition disabled_args : Namespace :=
  mkNamespace "DISABLED" (Some "key.pem") (Some "cert.pem") (Some "ca.pem")
    false None None.

(** [--ssl-mode DISABLED --ssl-root-cert ""]. *)
Definition disabled_no_root_args : Namespace :=
  mkNamespace "DISABLED" (Some "key.pem") (Some "cert.pem") (Some "")
    false None None.

Definition preview_args : Namespace :=
  mkNamespace "DISABLED" None None None true (Some "nvapi-key") (Some "fid-1").

Definition sample_rows : list csv_row :=
  [["a"; "1"]; ["b"; "2"]; ["c"; "3"]].

(** * Properties *)

Ltac unfold_setters :=
  unfold set_pc, set_threads, set_running, set_status, incr_opened,
    incr_closed, push_played; simpl.

(** ** The filter stage *)

(** C6: for every valid frame (exactly frameSize * channels *
    (bitsPerSample/8) = 4096 bytes) the filter stage of the source,
    [process_audio], returns a buffer of the same length and the same
    bytes. *)
Theorem process_audio_round_trip (audio_data : bytes) :
  valid_frame audio_data ->
  exists filtered_audio,
    process_audio audio_data = Returns filtered_audio /\
    length filtered_audio = length audio_data /\
    filtered_audio = audio_data /\
    valid_frame filtered_audio.
Proof.
  intros Hvalid. exists audio_data. unfold process_audio. auto.
Qed.

Lemma process_audio_round_trip_witness :
  valid_frame (repeat x2a frame_bytes) /\
  exists filtered_audio,
    process_audio (repeat x2a frame_bytes) = Returns filtered_audio /\
    length filtered_audio = length (repeat x2a frame_bytes) /\
    filtered_audio = repeat x2a frame_bytes /\
    valid_frame filtered_audio.
Proof.
  assert (Hv : valid_frame (repeat x2a frame_bytes)).
  { unfold valid_frame. apply repeat_length. }
  split; [exact Hv | exact (process_audio_round_trip _ Hv)].
Defined.

(** C7, as stated, fails: a buffer whose length is not the frame length is
    accepted.  The empty buffer is one. *)
Lemma process_audio_accepts_wrong_length :
  ~ (forall audio_data : bytes,
       (accepted (process_audio audio_data) <-> length audio_data = frame_bytes) /\
       (length audio_data <> frame_bytes ->
        rejected_with FormatError (process_audio audio_data))).
Proof.
  intros H. destruct (H []) as [[Hacc _] _].
  assert (Hlen : length (@nil byte) = frame_bytes) by (apply Hacc; exact I).
  vm_compute in Hlen. discriminate Hlen.
Qed.

(** C7, amended: [process_audio] accepts every buffer, of the frame length
    or of any other, returns it unchanged, and never raises. *)
Theorem process_audio_accepts_all (audio_data : bytes) :
  process_audio audio_data = Returns audio_data /\
  accepted (process_audio audio_data) /\
  forall e, ~ rejected_with e (process_audio audio_data).
Proof.
  unfold process_audio, rejected_with. repeat split. intros e H. discriminate H.
Qed.

(** ** Protobuf wrapping *)

Lemma isinstance_bool_is_int (b : bool) :
  isinstance (PyBool b) cls_int = true.
Proof. reflexivity. Qed.




(** ** The Start and Stop callbacks *)

Lemma reachable_exec (tr : list event) (w : World) :
  reachable w -> reachable (exec tr w).
Proof.
  revert w. induction tr as [| e tr IH]; intros w Hw; simpl.
  - exact Hw.
  - apply IH. constructor. exact Hw.
Qed.

Lemma exec_app (tr1 tr2 : list event) (w : World) :
  exec (tr1 ++ tr2) w = exec tr2 (exec tr1 w).
Proof.
  revert w. induction tr1 as [| e tr1 IH]; intros w; simpl; [reflexivity | apply IH].
Qed.

Lemma start_when_running (w : World) :
  running w = true -> start_voice_filtering w = w.
Proof. intros H. unfold start_voice_filtering. rewrite H. reflexivity. Qed.

Lemma step_initial_no_stop (e : event) :
  is_stop e = false -> step e initial = initial.
Proof. destruct e as [| | tid d]; intros H; [reflexivity | discriminate H | reflexivity]. Qed.

(** C9: at module load the flag is set, so the first Start returns at once:
    no thread is launched and no device opened.  As long as Stop has not
    been pressed nothing changes, whatever is pressed or scheduled; after
    one Stop, Start does launch a capture thread. *)
Theorem start_dead_until_stop :
  running initial = true /\
  start_voice_filtering initial = initial /\
  threads (start_voice_filtering initial) = [] /\
  opened (start_voice_filtering initial) = 0 /\
  (forall tr : list event,
     forallb (fun e => negb (is_stop e)) tr = true ->
     exec tr initial = initial) /\
  threads (start_voice_filtering (stop_voice_filtering initial)) = [AtSetRunning].
Proof.
  repeat split.
  intros tr. induction tr as [| e tr IH]; intros Hns; simpl in *.
  - reflexivity.
  - apply andb_true_iff in Hns as [He Htr].
    rewrite step_initial_no_stop by (destruct (is_stop e); [discriminate He | reflexivity]).
    apply IH, Htr.
Qed.

Lemma start_dead_until_stop_witness :
  exec [Start; Thread 0 (DevOk []); Start; Thread 1 DevFail; Start] initial = initial.
Proof.
  destruct start_dead_until_stop as (_ & _ & _ & _ & Hdead & _).
  apply Hdead. reflexivity.
Defined.

(** C1, evaluated at process start: the flag is set although the label
    says Idle and no capture thread exists, so the state is Running, not
    Idle, and Start leaves it there without launching anything.  Pressing
    Start twice in a row after a Stop gives two sessions that hold the
    device at the same time. *)
Theorem created_running_not_idle :
  capture_state initial = Running /\
  status_label initial = StatusIdle /\
  threads initial = [] /\
  step Start initial = initial /\
  sessions (exec double_start initial) = 2 /\
  capture_state (exec double_start initial) = Running.
Proof. repeat split. Qed.

(** C2, as stated, fails in the Stopping state: the flag is already
    cleared while the old loop is still in its frame, so Start launches a
    second thread, which opens the device a second time. *)
Lemma start_while_stopping_launches :
  let w := exec stopping_session initial in
  reachable w /\
  capture_state w = Stopping /\
  threads w = [AtRead] /\ opened w = 1 /\
  threads (start_voice_filtering w) = [AtRead; AtSetRunning] /\
  start_voice_filtering w <> w /\
  opened (exec [Start; Thread 1 DevFail; Thread 1 (DevOk [])] w) = 2.
Proof.
  cbv zeta. split; [apply reachable_exec; constructor |].
  repeat split. intros H. apply (f_equal threads) in H. discriminate H.
Qed.

(** C2, amended: whenever the flag is set, a further Start is a no-op: the
    state (Running) is unchanged, no thread is launched and the device is
    not opened again. *)
Theorem start_idempotent_when_running (w : World) :
  running w = true ->
  start_voice_filtering w = w /\
  capture_state (start_voice_filtering w) = Running /\
  threads (start_voice_filtering w) = threads w /\
  opened (start_voice_filtering w) = opened w /\
  start_voice_filtering (start_voice_filtering w) = start_voice_filtering w.
Proof.
  intros H. rewrite !start_when_running by exact H.
  unfold capture_state. rewrite H. repeat split.
Qed.

Lemma start_idempotent_when_running_witness :
  running (exec one_session initial) = true /\
  start_voice_filtering (exec one_session initial) = exec one_session initial /\
  threads (start_voice_filtering (exec one_session initial)) = [AtRead] /\
  opened (start_voice_filtering (exec one_session initial)) = 1.
Proof.
  assert (Hrun : running (exec one_session initial) = true) by reflexivity.
  destruct (start_idempotent_when_running _ Hrun) as (Hid & _ & Hthr & Hop & _).
  split; [exact Hrun |]. split; [exact Hid |].
  split; [rewrite Hthr; reflexivity | rewrite Hop; reflexivity].
Defined.

(** ** Device faults *)

Lemma insert_last (l : list pc) (x y : pc) :
  <[length l := x]> (l ++ [y]) = l ++ [x].
Proof. induction l as [| a l IH]; simpl; [reflexivity | f_equal; exact IH]. Qed.

Lemma lookup_last (l : list pc) (x : pc) :
  (l ++ [x]) !! length l = Some x.
Proof. apply list_lookup_middle. reflexivity. Qed.

(** A thread that has returned or died never moves again, whatever the
    others do. *)
Lemma dead_stays_step (e : event) (w : World) (tid : nat) (c : pc) :
  threads w !! tid = Some c -> live c = false ->
  threads (step e w) !! tid = Some c.
Proof.
  intros Hc Hdead. destruct e as [| | tid' d]; simpl.
  - unfold start_voice_filtering. destruct (running w); simpl; [exact Hc |].
    apply lookup_app_l_Some, Hc.
  - exact Hc.
  - unfold capture_audio_step.
    destruct (threads w !! tid') as [c' |] eqn:Hc'; [| exact Hc].
    destruct (decide (tid' = tid)) as [-> | Hne].
    + rewrite Hc in Hc'. injection Hc' as <-.
      destruct c; try discriminate Hdead; exact Hc.
    + destruct c'; try destruct d; try destruct (running w); simpl;
        try rewrite list_lookup_insert_ne by exact Hne; exact Hc.
Qed.

Lemma dead_stays (tr : list event) (w : World) (tid : nat) (c : pc) :
  threads w !! tid = Some c -> live c = false ->
  threads (exec tr w) !! tid = Some c.
Proof.
  revert w. induction tr as [| e tr IH]; intros w Hc Hdead; simpl.
  - exact Hc.
  - apply IH; [apply dead_stays_step; assumption | exact Hdead].
Qed.

(** C3, as stated, fails: the thread sets the flag before it opens the
    device, so after the failed open the state is Running, not Idle. *)
Lemma open_failure_leaves_running :
  capture_state (exec [Stop] initial) = Idle /\
  let w := exec start_without_device initial in
  threads w = [Crashed DeviceError] /\
  running w = true /\
  capture_state w = Running /\
  capture_state w <> Idle.
Proof. cbv zeta. repeat split. intros H. discriminate H. Qed.

Lemma open_failure_world (w : World) (d : device) :
  running w = false ->
  exec [Start; Thread (length (threads w)) d;
        Thread (length (threads w)) DevFail] w
  = mkWorld true (status_label w) (threads w ++ [Crashed DeviceError])
      (opened w) (closed w) (played w).
Proof.
  intros Hflag. destruct w as [r s ts o c p]. simpl in Hflag. subst r.
  simpl. unfold start_voice_filtering. simpl. unfold_setters.
  unfold capture_audio_step at 2. simpl. rewrite lookup_last. unfold_setters.
  rewrite insert_last.
  unfold capture_audio_step. simpl. rewrite lookup_last. unfold_setters.
  rewrite insert_last. reflexivity.
Qed.

(** C3, amended: when Start launches a capture thread and no input device
    is available, Start itself returns normally; the open fails inside the
    new thread and ends that thread: no stream is opened, the loop is never
    entered, nothing is read, played or closed, and the status label is
    left as it was. *)
Theorem open_failure_ends_thread (w : World) (d : device) :
  running w = false ->
  let tid := length (threads w) in
  let w' := exec [Start; Thread tid d; Thread tid DevFail] w in
  threads (step Start w) = threads w ++ [AtSetRunning] /\
  threads w' = threads w ++ [Crashed DeviceError] /\
  opened w' = opened w /\ closed w' = closed w /\ played w' = played w /\
  status_label w' = status_label w /\
  in_loop (Crashed DeviceError) = false /\
  forall tr : list event,
    threads (exec tr w') !! tid = Some (Crashed DeviceError).
Proof.
  intros Hflag. cbv zeta. rewrite (open_failure_world w d Hflag). simpl.
  split; [unfold start_voice_filtering; rewrite Hflag; reflexivity |].
  repeat split.
  intros tr. apply dead_stays; [| reflexivity]. simpl. apply lookup_last.
Qed.

Lemma open_failure_ends_thread_witness :
  running (stop_voice_filtering initial) = false /\
  threads (exec [Start; Thread 0 DevFail; Thread 0 DevFail]
             (stop_voice_filtering initial)) = [Crashed DeviceError] /\
  opened (exec [Start; Thread 0 DevFail; Thread 0 DevFail]
            (stop_voice_filtering initial)) = 0.
Proof.
  assert (Hflag : running (stop_voice_filtering initial) = false) by reflexivity.
  destruct (open_failure_ends_thread (stop_voice_filtering initial) DevFail Hflag)
    as (_ & Hthr & Hop & _).
  split; [exact Hflag |]. split; [exact Hthr | exact Hop].
Defined.

(** C4, as stated, fails: when [stream.read] raises inside the loop the
    exception is not caught.  The thread dies where it stands: the flag
    stays set (the state is Running, not Idle), the label still says
    Running, and the stream that was opened is not closed. *)
Lemma loop_fault_not_handled :
  let w := exec read_fault initial in
  threads w = [Crashed DeviceError] /\
  capture_state w = Running /\
  capture_state w <> Idle /\
  status_label w = StatusRunning /\
  opened w = 1 /\ closed w = 0.
Proof. cbv zeta. repeat split. intros H. discriminate H. Qed.

(** C4, amended: a device error raised in an iteration of the capture loop
    ends the capture thread and nothing else.  The thread processes no
    further frame, and the host process goes on: the buttons still work and
    a Stop followed by a Start launches a new capture thread.  The flag,
    the label and the stream are left as they were at the fault. *)
Theorem loop_fault_ends_thread_only (w : World) (tid : nat) (c : pc) :
  threads w !! tid = Some c ->
  device_call c = true ->
  let w' := capture_audio_step tid DevFail w in
  w' = set_pc tid (Crashed DeviceError) w /\
  running w' = running w /\ status_label w' = status_label w /\
  opened w' = opened w /\ closed w' = closed w /\ played w' = played w /\
  (forall tr : list event,
     threads (exec tr w') !! tid = Some (Crashed DeviceError)) /\
  threads (exec [Stop; Start] w') = threads w' ++ [AtSetRunning].
Proof.
  intros Hc Hcall. cbv zeta.
  assert (Hw' : capture_audio_step tid DevFail w = set_pc tid (Crashed DeviceError) w).
  { unfold capture_audio_step. rewrite Hc.
    destruct c; try discriminate Hcall; reflexivity. }
  rewrite Hw'. repeat split.
  intros tr. apply dead_stays; [| reflexivity]. simpl.
  apply list_lookup_insert_eq. eapply lookup_lt_Some, Hc.
Qed.

Lemma loop_fault_ends_thread_only_witness :
  threads (exec one_session initial) !! 0 = Some AtRead /\
  threads (capture_audio_step 0 DevFail (exec one_session initial))
    = [Crashed DeviceError] /\
  threads (exec [Stop; Start]
             (capture_audio_step 0 DevFail (exec one_session initial)))
    = [Crashed DeviceError; AtSetRunning].
Proof.
  assert (Hc : threads (exec one_session initial) !! 0 = Some AtRead) by reflexivity.
  destruct (loop_fault_ends_thread_only (exec one_session initial) 0 AtRead Hc eq_refl)
    as (Hw' & _ & _ & _ & _ & _ & _ & Hhost).
  split; [exact Hc |].
  split; [rewrite Hw'; reflexivity | rewrite Hhost, Hw'; reflexivity].
Defined.

(** ** Stop *)

Lemma lookup_set_pc (w : World) (tid : nat) (c0 c : pc) :
  threads w !! tid = Some c0 -> threads (set_pc tid c w) !! tid = Some c.
Proof.
  intros H. simpl. apply list_lookup_insert_eq. eapply lookup_lt_Some, H.
Qed.

Lemma label_inv_thread (tid : nat) (d : device) (w : World) :
  label_inv w -> label_inv (capture_audio_step tid d w).
Proof.
  intros Hinv. unfold capture_audio_step.
  destruct (threads w !! tid) as [c |] eqn:Hc; [| exact Hinv].
  (* either the thread lands on an exiting statement and is the witness
     itself, or the old witness is another thread and is untouched *)
  assert (Hkeep : forall c' : pc,
            exiting c = false ->
            label_inv (set_pc tid c' w)).
  { intros c' Hne Hrun Hlab. destruct (Hinv Hrun Hlab) as (j & cj & Hj & Hex).
    exists j, cj. split; [| exact Hex]. simpl.
    rewrite list_lookup_insert_ne; [exact Hj |].
    intros ->. rewrite Hc in Hj. injection Hj as ->. congruence. }
  assert (Hself : forall (c' : pc) (w0 : World),
            threads w0 = threads w -> exiting c' = true ->
            label_inv (set_pc tid c' w0)).
  { intros c' w0 Hthr Hex _ _. exists tid, c'. split; [| exact Hex].
    apply lookup_set_pc with (c0 := c). rewrite Hthr. exact Hc. }
  destruct c.
  - (* running = True *) intros Hrun. discriminate Hrun.
  - (* p.open *) destruct d; [| apply Hkeep; reflexivity].
    intros Hrun Hlab. destruct (Hinv Hrun Hlab) as (j & cj & Hj & Hex).
    exists j, cj. split; [| exact Hex]. simpl.
    rewrite list_lookup_insert_ne; [exact Hj |].
    intros ->. rewrite Hc in Hj. injection Hj as <-. discriminate Hex.
  - (* label: Running *) apply Hself; reflexivity.
  - (* while running *)
    destruct (running w) eqn:Hrun.
    + intros Hrun'. simpl in Hrun'. congruence.
    + apply Hself; reflexivity.
  - (* stream.read *) destruct d; apply Hkeep; reflexivity.
  - (* process_audio *) simpl. apply Hkeep; reflexivity.
  - (* play_audio *) destruct d; [apply Hself | apply Hkeep]; reflexivity.
  - (* close *) apply Hself; reflexivity.
  - (* label: Idle *) intros _ Hlab. discriminate Hlab.
  - exact Hinv.
  - exact Hinv.
Qed.

Lemma label_inv_step (e : event) (w : World) :
  label_inv w -> label_inv (step e w).
Proof.
  intros Hinv. destruct e as [| | tid d]; simpl.
  - unfold start_voice_filtering. destruct (running w) eqn:Hrun; [exact Hinv |].
    intros _ Hlab. destruct (Hinv Hrun Hlab) as (j & cj & Hj & Hex).
    exists j, cj. split; [| exact Hex]. simpl. apply lookup_app_l_Some, Hj.
  - intros _ Hlab. discriminate Hlab.
  - apply label_inv_thread, Hinv.
Qed.

Lemma label_inv_reachable (w : World) : reachable w -> label_inv w.
Proof.
  induction 1 as [| e w _ IH].
  - intros Hrun. discriminate Hrun.
  - apply label_inv_step, IH.
Qed.

Lemma live_thread_exists (w : World) (tid : nat) (c : pc) :
  threads w !! tid = Some c -> live c = true ->
  existsb live (threads w) = true.
Proof.
  intros Hc Hlive. apply existsb_exists. exists c. split; [| exact Hlive].
  apply list_elem_of_In. eapply list_elem_of_lookup_2, Hc.
Qed.

Lemma idle_inv (w : World) :
  capture_state w = Idle ->
  running w = false /\ existsb live (threads w) = false.
Proof.
  unfold capture_state. destruct (running w); [discriminate |].
  destruct (existsb live (threads w)); [discriminate | auto].
Qed.

(** C8: in every state the process can reach, Stop pressed while the
    capture state is Idle changes nothing: the flag, the label, the
    threads and the device counters are what they were.  Stop has no
    failing path. *)
Theorem stop_when_idle_is_noop (w : World) :
  reachable w ->
  capture_state w = Idle ->
  stop_voice_filtering w = w /\
  capture_state (stop_voice_filtering w) = Idle.
Proof.
  intros Hreach Hidle.
  assert (Hstop : stop_voice_filtering w = w).
  { destruct (idle_inv w Hidle) as [Hrun Hnolive].
    assert (Hlab : status_label w = StatusIdle).
    { destruct (status_label w) eqn:Hlab; [reflexivity |].
      destruct (label_inv_reachable w Hreach Hrun Hlab) as (j & cj & Hj & Hex).
      rewrite (live_thread_exists w j cj Hj) in Hnolive; [discriminate |].
      destruct cj; try discriminate Hex; reflexivity. }
    destruct w as [r s ts o c p]. simpl in *. subst r s. reflexivity. }
  rewrite Hstop. split; [reflexivity | exact Hidle].
Qed.

Lemma stop_when_idle_is_noop_witness :
  reachable (exec [Stop; Start; Thread 0 DevFail; Thread 0 DevFail; Stop] initial) /\
  capture_state (exec [Stop; Start; Thread 0 DevFail; Thread 0 DevFail; Stop] initial)
    = Idle /\
  stop_voice_filtering
    (exec [Stop; Start; Thread 0 DevFail; Thread 0 DevFail; Stop] initial)
  = exec [Stop; Start; Thread 0 DevFail; Thread 0 DevFail; Stop] initial.
Proof.
  assert (Hreach : reachable
            (exec [Stop; Start; Thread 0 DevFail; Thread 0 DevFail; Stop] initial)).
  { apply reachable_exec. constructor. }
  assert (Hidle : capture_state
            (exec [Stop; Start; Thread 0 DevFail; Thread 0 DevFail; Stop] initial) = Idle)
    by reflexivity.
  split; [exact Hreach |]. split; [exact Hidle |].
  exact (proj1 (stop_when_idle_is_noop _ Hreach Hidle)).
Defined.

(** *** Cooperative cancellation *)

Lemma capture_step_at (tid : nat) (d : device) (w : World) (c : pc) :
  threads w !! tid = Some c ->
  capture_audio_step tid d w =
  match c with
  | AtSetRunning => set_pc tid AtOpen (set_running true w)
  | AtOpen =>
      match d with
      | DevOk _ => set_pc tid AtLabelRunning (incr_opened w)
      | DevFail => set_pc tid (Crashed DeviceError) w
      end
  | AtLabelRunning => set_pc tid AtWhile (set_status StatusRunning w)
  | AtWhile => if running w then set_pc tid AtRead w else set_pc tid AtClose w
  | AtRead =>
      match d with
      | DevOk audio_data => set_pc tid (AtProcess audio_data) w
      | DevFail => set_pc tid (Crashed DeviceError) w
      end
  | AtProcess audio_data => set_pc tid (AtPlay audio_data) w
  | AtPlay filtered_audio =>
      match d with
      | DevOk _ => set_pc tid AtWhile (push_played filtered_audio w)
      | DevFail => set_pc tid (Crashed DeviceError) w
      end
  | AtClose => set_pc tid AtLabelIdle (incr_closed w)
  | AtLabelIdle => set_pc tid Finished (set_status StatusIdle w)
  | Finished | Crashed _ => w
  end.
Proof. intros H. unfold capture_audio_step. rewrite H. destruct c; reflexivity. Qed.

Section Exit.
Variable tid : nat.




End Exit.





(** ** The capture pipeline as a whole *)

Lemma sessions_cons (c : pc) (l : list pc) :
  length (filter (fun c => holds_device c = true) (c :: l))
  = held c + length (filter (fun c => holds_device c = true) l).
Proof.
  rewrite filter_cons. unfold held.
  destruct (decide (holds_device c = true)) as [E | E].
  - rewrite E. reflexivity.
  - destruct (holds_device c); [congruence | reflexivity].
Qed.

Lemma sessions_insert (l : list pc) (i : nat) (c c' : pc) :
  l !! i = Some c ->
  length (filter (fun c => holds_device c = true) (<[i := c']> l)) + held c
  = length (filter (fun c => holds_device c = true) l) + held c'.
Proof.
  revert i. induction l as [| x l IH]; intros [| i] H; try discriminate H.
  - injection H as ->. simpl insert. rewrite !sessions_cons. lia.
  - simpl in H. change (<[S i := c']> (x :: l)) with (x :: <[i := c']> l).
    rewrite !sessions_cons. specialize (IH i H). lia.
Qed.

Lemma sessions_set_pc (w w0 : World) (tid : nat) (c c' : pc) :
  threads w !! tid = Some c -> threads w0 = threads w ->
  sessions (set_pc tid c' w0) + held c = sessions w + held c'.
Proof.
  intros Hc Hthr. unfold sessions. simpl. rewrite Hthr.
  apply sessions_insert, Hc.
Qed.

Lemma sessions_start (w : World) :
  sessions (start_voice_filtering w) = sessions w.
Proof.
  unfold start_voice_filtering, sessions. destruct (running w); [reflexivity |].
  simpl. rewrite filter_app, length_app. simpl. lia.
Qed.

(** What one event does to the device bookkeeping. *)
Lemma device_balance_step (e : event) (w : World) :
  closed (step e w) + sessions (step e w) <= opened (step e w)
    + (closed w + sessions w - opened w) /\
  (fault_free e = true ->
   closed w + sessions w = opened w ->
   closed (step e w) + sessions (step e w) = opened (step e w)).
Proof.
  destruct e as [| | tid d]; simpl.
  - rewrite sessions_start.
    assert (Ho : opened (start_voice_filtering w) = opened w)
      by (unfold start_voice_filtering; destruct (running w); reflexivity).
    assert (Hc : closed (start_voice_filtering w) = closed w)
      by (unfold start_voice_filtering; destruct (running w); reflexivity).
    rewrite Ho, Hc. lia.
  - change (sessions (stop_voice_filtering w)) with (sessions w). lia.
  - destruct (threads w !! tid) as [c |] eqn:Hc;
      [| unfold capture_audio_step; rewrite Hc; lia].
    rewrite (capture_step_at tid d w c Hc).
    destruct c; try destruct d; try lia;
      try (destruct (running w) eqn:Hrun);
      match goal with
      | Hc : threads ?w !! ?t = Some _ |- context [sessions (set_pc ?t ?c' ?w0)] =>
          pose proof (sessions_set_pc w w0 t _ c' Hc eq_refl) as Hs;
          unfold held in Hs; simpl in Hs; simpl; split; [lia |];
          intros Hff; try discriminate Hff; lia
      end.
Qed.

(** X1: in every reachable state the streams that have been closed and
    the streams still held by capture threads together never outnumber
    the successful opens. *)
Theorem closes_never_exceed_opens (w : World) :
  reachable w -> closed w + sessions w <= opened w.
Proof.
  induction 1 as [| e w _ IH]; [cbn; lia |].
  pose proof (device_balance_step e w) as [Hle _]. lia.
Qed.

Lemma closes_never_exceed_opens_witness :
  reachable (exec one_session initial) /\
  closed (exec one_session initial) + sessions (exec one_session initial)
  <= opened (exec one_session initial).
Proof.
  assert (Hreach : reachable (exec one_session initial))
    by (apply reachable_exec; constructor).
  split; [exact Hreach | exact (closes_never_exceed_opens _ Hreach)].
Defined.

(** X2: along a schedule from process start in which no device call
    fails, no stream is lost: every stream that was opened is either
    closed or still held by a capture thread. *)
Theorem no_leak_without_fault (tr : list event) :
  forallb fault_free tr = true ->
  closed (exec tr initial) + sessions (exec tr initial)
  = opened (exec tr initial).
Proof.
  assert (Hgen : forall w, closed w + sessions w = opened w ->
            forallb fault_free tr = true ->
            closed (exec tr w) + sessions (exec tr w) = opened (exec tr w)).
  { induction tr as [| e tr IH]; intros w Hw Hff; simpl in *; [exact Hw |].
    apply andb_true_iff in Hff as [He Htr].
    apply IH; [| exact Htr].
    apply (device_balance_step e w); assumption. }
  apply Hgen. reflexivity.
Qed.

Lemma no_leak_without_fault_witness :
  forallb fault_free clean_session = true /\
  closed (exec clean_session initial) + sessions (exec clean_session initial)
  = opened (exec clean_session initial) /\
  opened (exec clean_session initial) = 1.
Proof.
  assert (Hff : forallb fault_free clean_session = true) by reflexivity.
  split; [exact Hff |].
  split; [exact (no_leak_without_fault clean_session Hff) | reflexivity].
Defined.

(** X3: one turn of the capture loop with the flag set and a working
    device (test, read, filter, play) hands exactly the buffer that was
    read to the output, unchanged, and leaves the thread at the loop test
    with everything else as it was. *)
Theorem loop_iteration_plays_what_it_reads
    (w : World) (tid : nat) (audio_data x : bytes) (d1 d3 : device) :
  threads w !! tid = Some AtWhile ->
  running w = true ->
  exec (run_alone tid [d1; DevOk audio_data; d3; DevOk x]) w
  = push_played audio_data w.
Proof.
  intros Hc Hrun.
  assert (Hlt : tid < length (threads w)) by (eapply lookup_lt_Some, Hc).
  simpl.
  rewrite (capture_step_at tid d1 w AtWhile Hc), Hrun.
  set (w1 := set_pc tid AtRead w).
  assert (H1 : threads w1 !! tid = Some AtRead) by (eapply lookup_set_pc, Hc).
  rewrite (capture_step_at tid (DevOk audio_data) w1 AtRead H1).
  set (w2 := set_pc tid (AtProcess audio_data) w1).
  assert (H2 : threads w2 !! tid = Some (AtProcess audio_data))
    by (eapply lookup_set_pc, H1).
  rewrite (capture_step_at tid d3 w2 _ H2).
  set (w3 := set_pc tid (AtPlay audio_data) w2).
  assert (H3 : threads w3 !! tid = Some (AtPlay audio_data))
    by (eapply lookup_set_pc, H2).
  rewrite (capture_step_at tid (DevOk x) w3 _ H3).
  subst w3 w2 w1.
  destruct w as [r s ts o c p]. simpl in *.
  unfold push_played, set_pc, set_threads. simpl.
  rewrite !list_insert_insert_eq, list_insert_id by exact Hc. reflexivity.
Qed.

Lemma loop_iteration_plays_what_it_reads_witness :
  threads (exec session_at_loop_test initial) !! 0 = Some AtWhile /\
  running (exec session_at_loop_test initial) = true /\
  exec (run_alone 0 [DevFail; DevOk [x0a; x0b]; DevFail; DevOk []])
    (exec session_at_loop_test initial)
  = mkWorld true StatusRunning [AtWhile] 1 0 [[x0a; x0b]].
Proof.
  assert (Hc : threads (exec session_at_loop_test initial) !! 0 = Some AtWhile)
    by reflexivity.
  assert (Hrun : running (exec session_at_loop_test initial) = true)
    by reflexivity.
  split; [exact Hc |]. split; [exact Hrun |].
  rewrite (loop_iteration_plays_what_it_reads _ 0 [x0a; x0b] [] DevFail DevFail
             Hc Hrun).
  reflexivity.
Defined.

(* The innermost pending statement of the last thread, at [c]. *)
Ltac step_last c :=
  match goal with
  | |- context [capture_audio_step ?t ?d (mkWorld ?r ?s ?l ?o ?cl ?p)] =>
      rewrite (capture_step_at t d (mkWorld r s l o cl p) c)
        by (simpl; apply lookup_last);
      unfold set_pc, set_threads, set_running, set_status, incr_opened;
      simpl; rewrite insert_last
  end.

(** X4: when the flag is cleared, Start followed by the first four
    statements of the new thread, the device opening, brings up a
    session: the flag is set, the label says Running, exactly one more
    stream is open and the new thread is about to read its first frame. *)
Theorem start_brings_up_session (w : World) (x : bytes) (d1 d3 d4 : device) :
  running w = false ->
  let tid := length (threads w) in
  exec [Start; Thread tid d1; Thread tid (DevOk x); Thread tid d3; Thread tid d4] w
  = mkWorld true StatusRunning (threads w ++ [AtRead])
      (S (opened w)) (closed w) (played w).
Proof.
  intros Hrun. cbv zeta.
  destruct w as [r s ts o c p]. simpl in Hrun. subst r.
  simpl. unfold start_voice_filtering. simpl.
  unfold set_threads. simpl.
  step_last AtSetRunning. step_last AtOpen.
  step_last AtLabelRunning. step_last AtWhile.
  reflexivity.
Qed.

Lemma start_brings_up_session_witness :
  running (stop_voice_filtering initial) = false /\
  exec [Start; Thread 0 DevFail; Thread 0 (DevOk []); Thread 0 DevFail;
        Thread 0 DevFail] (stop_voice_filtering initial)
  = mkWorld true StatusRunning [AtRead] 1 0 [].
Proof.
  assert (Hrun : running (stop_voice_filtering initial) = false) by reflexivity.
  split; [exact Hrun |].
  exact (start_brings_up_session (stop_voice_filtering initial) []
           DevFail DevFail DevFail Hrun).
Defined.

Lemma flag_kept_step (e : event) (w : World) :
  running w = true -> is_stop e = false ->
  running (step e w) = true /\
  length (threads (step e w)) = length (threads w).
Proof.
  intros Hrun He. destruct e as [| | tid d]; [| discriminate He |]; simpl.
  - rewrite start_when_running by exact Hrun. auto.
  - destruct (threads w !! tid) as [c |] eqn:Hc;
      [| unfold capture_audio_step; rewrite Hc; auto].
    rewrite (capture_step_at tid d w c Hc).
    destruct c; try destruct d; rewrite ?Hrun; simpl;
      rewrite ?length_insert; auto.
Qed.

(** X5: only Stop clears the flag.  Along any schedule without a Stop a
    set flag stays set, whatever the capture threads and the device do
    (a device fault included), and no capture thread is launched. *)
Theorem only_stop_clears_flag (tr : list event) (w : World) :
  running w = true ->
  forallb (fun e => negb (is_stop e)) tr = true ->
  running (exec tr w) = true /\
  length (threads (exec tr w)) = length (threads w).
Proof.
  revert w. induction tr as [| e tr IH]; intros w Hrun Hns; simpl in *; [auto |].
  apply andb_true_iff in Hns as [He Htr].
  apply negb_true_iff in He.
  destruct (flag_kept_step e w Hrun He) as [Hrun' Hlen'].
  destruct (IH _ Hrun' Htr) as [H1 H2]. split; [exact H1 | congruence].
Qed.

Lemma only_stop_clears_flag_witness :
  running (exec one_session initial) = true /\
  running (exec [Thread 0 DevFail; Start; Thread 0 DevFail; Start]
             (exec one_session initial)) = true /\
  length (threads (exec [Thread 0 DevFail; Start; Thread 0 DevFail; Start]
                     (exec one_session initial))) = 1.
Proof.
  assert (Hrun : running (exec one_session initial) = true) by reflexivity.
  split; [exact Hrun |].
  exact (only_stop_clears_flag
           [Thread 0 DevFail; Start; Thread 0 DevFail; Start]
           (exec one_session initial) Hrun eq_refl).
Defined.








(** ** Boot video *)

Lemma update_frame_spec (to_photo : image -> image)
    (frames : list image) (s : Screen) :
  update_frame to_photo frames s
  = mkScreen true (S (start_gui_calls s)) (pred (video_windows s))
      (shown s ++ map to_photo frames) (S (cap_released s)) (printed s).
Proof.
  revert s. induction frames as [| frame rest IH]; intros s; simpl.
  - unfold start_gui. simpl. rewrite app_nil_r. reflexivity.
  - rewrite IH. simpl. rewrite <- app_assoc. reflexivity.
Qed.

(** X8: whatever the boot video, [play_bootup_video] ends with the main
    window shown, [start_gui] called exactly once and no video window
    left open.  A video that opens has every frame shown, in order, and
    its capture released once; one that does not open shows nothing,
    prints the error line and releases nothing. *)
Theorem play_bootup_video_shows_gui_once
    (to_photo : image -> image) (video : option (list image)) :
  let s := play_bootup_video to_photo video boot_screen in
  root_visible s = true /\
  start_gui_calls s = 1 /\
  video_windows s = 0 /\
  match video with
  | Some frames =>
      shown s = map to_photo frames /\ cap_released s = 1 /\ printed s = []
  | None =>
      shown s = [] /\ cap_released s = 0 /\ printed s = [NO_VIDEO_MESSAGE]
  end.
Proof.
  destruct video as [frames |]; cbv zeta.
  - unfold play_bootup_video. rewrite update_frame_spec. simpl. repeat split.
  - repeat split.
Qed.

(** ** CSV batches *)

(** One turn of the [while True] loop. *)
Lemma roi_csv_reader_loop (reader : list csv_row) (row_count : nat) :
  roi_csv_reader reader row_count =
  match take row_count reader with
  | [] => []
  | rows => rows :: roi_csv_reader (drop row_count reader) row_count
  end.
Proof.
  rewrite roi_csv_reader_equation_1.
  destruct (inspect (take row_count reader)) as [[| r rows] Heq];
    simpl; rewrite Heq; reflexivity.
Qed.

Lemma take_nil_inv (reader : list csv_row) (n : nat) :
  take n reader = [] -> n = 0 \/ reader = [].
Proof. destruct n, reader; simpl; auto; discriminate. Qed.

(** X9: with a positive [row_count] the batches, put end to end, are the
    rows of the reader: no row is lost, repeated or moved. *)
Theorem roi_csv_reader_concat (reader : list csv_row) (row_count : nat) :
  0 < row_count ->
  concat (roi_csv_reader reader row_count) = reader.
Proof.
  intros Hpos.
  induction reader as [reader IH] using (induction_ltof1 _ (@length csv_row)).
  unfold ltof in IH.
  rewrite roi_csv_reader_loop.
  destruct (take row_count reader) as [| r rows] eqn:Htake.
  - apply take_nil_inv in Htake as [-> | ->]; [lia | reflexivity].
  - rewrite concat_cons, IH.
    + rewrite <- Htake. apply take_drop.
    + rewrite length_drop. destruct reader; [destruct row_count; discriminate | simpl; lia].
Qed.

Lemma roi_csv_reader_concat_witness :
  0 < 2 /\ concat (roi_csv_reader sample_rows 2) = sample_rows.
Proof.
  assert (Hpos : 0 < 2) by lia.
  split; [exact Hpos | exact (roi_csv_reader_concat sample_rows 2 Hpos)].
Defined.

(** The batch at a given position, by induction on the position. *)
Lemma roi_csv_reader_batch (reader : list csv_row) (row_count i : nat) :
  roi_csv_reader reader row_count !! i =
  if (0 <? row_count) && (i * row_count <? length reader)
  then Some (take row_count (drop (i * row_count) reader))
  else None.
Proof.
  revert reader. induction i as [| i IH]; intros reader.
  - rewrite roi_csv_reader_loop. simpl.
    destruct (take row_count reader) as [| r rows] eqn:Htake.
    + apply take_nil_inv in Htake as [-> | ->]; simpl; [reflexivity |].
      rewrite andb_false_r. reflexivity.
    + assert (0 < row_count) by (destruct row_count; [discriminate | lia]).
      assert (0 < length reader) by (destruct reader; [destruct row_count; discriminate | simpl; lia]).
      replace (0 <? row_count) with true by (symmetry; apply Nat.ltb_lt; lia).
      replace (0 <? length reader) with true by (symmetry; apply Nat.ltb_lt; lia).
      simpl. rewrite drop_0, Htake. reflexivity.
  - rewrite roi_csv_reader_loop.
    destruct (take row_count reader) as [| r rows] eqn:Htake.
    + apply take_nil_inv in Htake as [-> | ->]; simpl; [reflexivity |].
      rewrite andb_false_r. reflexivity.
    + change (((r :: rows) :: roi_csv_reader (drop row_count reader) row_count) !! S i)
        with (roi_csv_reader (drop row_count reader) row_count !! i).
      rewrite IH. rewrite length_drop, drop_drop.
      replace (row_count + i * row_count) with (S i * row_count) by lia.
      destruct (0 <? row_count) eqn:Hn; [| reflexivity]. simpl.
      apply Nat.ltb_lt in Hn.
      destruct (i * row_count <? length reader - row_count) eqn:E1;
        destruct (row_count + i * row_count <? length reader) eqn:E2; try reflexivity;
        [apply Nat.ltb_lt in E1; apply Nat.ltb_ge in E2 | apply Nat.ltb_ge in E1; apply Nat.ltb_lt in E2]; lia.
Qed.

(** X10: batch number [i] holds the rows from position [i * row_count]
    on, [row_count] of them or what is left; there is no such batch when
    [row_count] is zero or the reader has no row at that position. *)
Theorem roi_csv_reader_lookup (reader : list csv_row) (row_count i : nat) :
  roi_csv_reader reader row_count !! i =
  if (0 <? row_count) && (i * row_count <? length reader)
  then Some (take row_count (drop (i * row_count) reader))
  else None.
Proof. apply roi_csv_reader_batch. Qed.

(** X11: the generator yields nothing exactly when [row_count] is zero
    or the reader has no rows; with [row_count = 0] the rows of a
    non-empty reader are silently not delivered. *)
Theorem roi_csv_reader_empty_iff (reader : list csv_row) (row_count : nat) :
  roi_csv_reader reader row_count = [] <-> row_count = 0 \/ reader = [].
Proof.
  rewrite roi_csv_reader_loop.
  destruct (take row_count reader) as [| r rows] eqn:Htake.
  - split; [intros _; apply take_nil_inv, Htake | reflexivity].
  - split; [discriminate |].
    intros [-> | ->]; [rewrite take_0 in Htake | rewrite take_nil in Htake];
      discriminate Htake.
Qed.

Lemma ceil_div_bounds (len n : nat) :
  0 < n ->
  len <= (len + n - 1) / n * n /\
  (0 < len -> ((len + n - 1) / n - 1) * n < len /\ 0 < (len + n - 1) / n).
Proof.
  intros Hn.
  pose proof (Nat.div_mod_eq (len + n - 1) n) as Hdm.
  pose proof (Nat.mod_upper_bound (len + n - 1) n ltac:(lia)) as Hmod.
  split; [nia |].
  intros Hlen.
  assert (0 < (len + n - 1) / n) by (apply Nat.div_str_pos; lia).
  split; [nia | assumption].
Qed.

(** X12: with a positive [row_count] the number of batches is the number
    of rows divided by [row_count], rounded up; no batch is empty, none
    is longer than [row_count], and every batch but the last has exactly
    [row_count] rows. *)
Theorem roi_csv_reader_shape (reader : list csv_row) (row_count : nat) :
  0 < row_count ->
  length (roi_csv_reader reader row_count)
    = (length reader + row_count - 1) / row_count /\
  forall (i : nat) (rows : list csv_row),
    roi_csv_reader reader row_count !! i = Some rows ->
    0 < length rows <= row_count /\
    (S i < length (roi_csv_reader reader row_count) -> length rows = row_count).
Proof.
  intros Hpos.
  assert (Hn : (0 <? row_count) = true) by (apply Nat.ltb_lt; exact Hpos).
  destruct (ceil_div_bounds (length reader) row_count Hpos) as [Hup Hlow].
  assert (Hlen : length (roi_csv_reader reader row_count)
                 = (length reader + row_count - 1) / row_count).
  { apply Nat.le_antisymm.
    - apply lookup_ge_None. rewrite roi_csv_reader_batch, Hn. simpl.
      replace (_ <? _) with false; [reflexivity |].
      symmetry. apply Nat.ltb_ge. exact Hup.
    - destruct (Nat.eq_dec (length reader) 0) as [H0 | H0].
      + rewrite H0, Nat.div_small by lia. lia.
      + destruct (Hlow ltac:(lia)) as [Hl Hk].
        assert (Hsome : is_Some (roi_csv_reader reader row_count
                                   !! ((length reader + row_count - 1) / row_count - 1))).
        { rewrite roi_csv_reader_batch, Hn. simpl.
          replace (_ <? _) with true; [eauto |].
          symmetry. apply Nat.ltb_lt. exact Hl. }
        apply lookup_lt_is_Some in Hsome. lia. }
  split; [exact Hlen |].
  intros i rows Hi.
  pose proof Hi as Hi'.
  rewrite roi_csv_reader_batch, Hn in Hi'. simpl in Hi'.
  destruct (i * row_count <? length reader) eqn:E; [| discriminate Hi'].
  apply Nat.ltb_lt in E. injection Hi' as <-.
  rewrite length_take, length_drop. split; [lia |].
  intros Hnext.
  assert (Hsome : is_Some (roi_csv_reader reader row_count !! S i))
    by (apply lookup_lt_is_Some; exact Hnext).
  rewrite roi_csv_reader_batch, Hn in Hsome. simpl in Hsome.
  destruct (row_count + i * row_count <? length reader) eqn:E2;
    [| destruct Hsome as [? Hs]; discriminate Hs].
  apply Nat.ltb_lt in E2. lia.
Qed.

Lemma roi_csv_reader_shape_witness :
  0 < 2 /\
  length (roi_csv_reader sample_rows 2) = 2 /\
  roi_csv_reader sample_rows 2 = [[["a"; "1"]; ["b"; "2"]]; [["c"; "3"]]].
Proof.
  assert (Hpos : 0 < 2) by lia.
  split; [exact Hpos |].
  split; [rewrite (proj1 (roi_csv_reader_shape sample_rows 2 Hpos)) | ];
    reflexivity.
Defined.

(** ** MP4 inspection *)

Lemma bytes_eqb_eq (a b : bytes) : bytes_eqb a b = true <-> a = b.
Proof.
  revert b. induction a as [| x a IH]; intros [| y b]; simpl;
    try (split; [discriminate | discriminate]); [tauto |].
  rewrite andb_true_iff, IH. split.
  - intros [Hxy ->]. apply byte_dec_bl in Hxy. subst. reflexivity.
  - intros [= -> ->]. split; [apply byte_dec_lb |]; reflexivity.
Qed.

Lemma py_slice_length (lo hi : N) (data : bytes) :
  length (py_slice lo hi data)
  = N.to_nat (N.min hi (N.of_nat (length data)))
    - N.to_nat (N.min lo (N.of_nat (length data))).
Proof. unfold py_slice. rewrite length_drop, length_take. lia. Qed.

(** A slice that lies inside the first 40 bytes reads the file itself. *)
Lemma py_slice_header (lo hi : N) (content : bytes) :
  40 <= length content -> (lo <= hi)%N -> (hi <= 40)%N ->
  py_slice lo hi (take 40 content)
  = take (N.to_nat hi - N.to_nat lo) (drop (N.to_nat lo) content).
Proof.
  intros Hlen Hlo Hhi. unfold py_slice.
  rewrite length_take_le by exact Hlen.
  rewrite !N.min_l by lia.
  rewrite take_take, Nat.min_l by lia.
  rewrite take_drop_commute. f_equal. f_equal. lia.
Qed.

Lemma header_length (content : bytes) :
  40 <= length content -> (length (take 40 content) <? 40) = false.
Proof. intros H. rewrite length_take_le by exact H. reflexivity. Qed.

Lemma ftyp_size_header (content : bytes) :
  40 <= length content ->
  from_bytes_big (py_slice 0 4 (take 40 content)) = ftyp_size_of content.
Proof.
  intros H. rewrite py_slice_header by (try exact H; lia).
  unfold ftyp_size_of. reflexivity.
Qed.

(** X13: a file of fewer than 40 bytes makes [check_streamable] raise
    RuntimeError, whatever the bytes are. *)
Theorem check_streamable_too_small
    (fs : FileSystem) (file_path : string) (content : bytes) :
  fs file_path = Some content ->
  length content < 40 ->
  check_streamable fs file_path = Exc (RuntimeError TOO_SMALL_MESSAGE).
Proof.
  intros Hfs Hlen. unfold check_streamable. rewrite Hfs.
  rewrite length_take_ge by lia.
  replace (length content <? 40) with true; [reflexivity |].
  symmetry. apply Nat.ltb_lt. exact Hlen.
Qed.

Lemma check_streamable_too_small_witness :
  length (take 39 streamable_header) < 40 /\
  check_streamable (fun _ => Some (take 39 streamable_header)) "clip.mp4"
  = Exc (RuntimeError TOO_SMALL_MESSAGE).
Proof.
  assert (Hlen : length (take 39 streamable_header) < 40) by (simpl; lia).
  split; [exact Hlen |].
  exact (check_streamable_too_small
           (fun _ => Some (take 39 streamable_header)) "clip.mp4" _ eq_refl Hlen).
Defined.

(** X14: for a file of at least 40 bytes [check_streamable] returns True
    exactly when bytes 4..8 are "ftyp", the ftyp atom size read from the
    first four bytes is at most 32, and the four bytes at offset size + 4
    are "moov".  A file whose ftyp atom is longer than 32 bytes is never
    reported streamable, because only 40 bytes are read. *)
Theorem check_streamable_true_iff
    (fs : FileSystem) (file_path : string) (content : bytes) :
  fs file_path = Some content ->
  40 <= length content ->
  (check_streamable fs file_path = Val (JustBool true) <->
   take 4 (drop 4 content) = FTYP /\
   (ftyp_size_of content <= 32)%N /\
   take 4 (drop (N.to_nat (ftyp_size_of content) + 4) content) = MOOV).
Proof.
  intros Hfs Hlen. unfold check_streamable. rewrite Hfs.
  rewrite header_length by exact Hlen.
  rewrite ftyp_size_header by exact Hlen.
  rewrite (py_slice_header 4 8) by (try exact Hlen; lia).
  change (N.to_nat 8 - N.to_nat 4) with 4. change (N.to_nat 4) with 4.
  set (s := ftyp_size_of content).
  destruct (bytes_eqb (take 4 (drop 4 content)) FTYP) eqn:Hftyp; simpl.
  - apply bytes_eqb_eq in Hftyp.
    destruct (N.le_gt_cases s 32) as [Hs | Hs].
    + rewrite (py_slice_header (s + 4) (s + 8)) by (try exact Hlen; lia).
      replace (N.to_nat (s + 8) - N.to_nat (s + 4)) with 4 by lia.
      replace (N.to_nat (s + 4)) with (N.to_nat s + 4) by lia.
      destruct (bytes_eqb _ MOOV) eqn:Hmoov.
      * apply bytes_eqb_eq in Hmoov. tauto.
      * split; [discriminate |]. intros (_ & _ & Heq).
        apply bytes_eqb_eq in Heq. congruence.
    + destruct (bytes_eqb _ MOOV) eqn:Hmoov.
      * apply bytes_eqb_eq in Hmoov. apply (f_equal length) in Hmoov.
        rewrite py_slice_length, length_take_le in Hmoov by exact Hlen.
        simpl in Hmoov. lia.
      * split; [discriminate | lia].
  - split; [discriminate |]. intros (Heq & _).
    apply bytes_eqb_eq in Heq. congruence.
Qed.

Lemma check_streamable_true_iff_witness :
  40 <= length streamable_header /\
  ftyp_size_of streamable_header = 32%N /\
  check_streamable (fun _ => Some streamable_header) "clip.mp4"
  = Val (JustBool true).
Proof.
  assert (Hlen : 40 <= length streamable_header) by (simpl; lia).
  split; [exact Hlen |]. split; [reflexivity |].
  apply (check_streamable_true_iff
           (fun _ => Some streamable_header) "clip.mp4" _ eq_refl Hlen).
  split; [reflexivity |]. split; [vm_compute; discriminate | reflexivity].
Defined.

(** X15: for a file of at least 40 bytes whose bytes 4..8 are not "ftyp"
    the function returns the tuple (False, -1), not False; as a condition
    that tuple counts as true. *)
Theorem check_streamable_not_mp4_is_truthy
    (fs : FileSystem) (file_path : string) (content : bytes) :
  fs file_path = Some content ->
  40 <= length content ->
  take 4 (drop 4 content) <> FTYP ->
  check_streamable fs file_path = Val (BoolAndSize false (-1)) /\
  result_truth (BoolAndSize false (-1)) = true.
Proof.
  intros Hfs Hlen Hne. unfold check_streamable. rewrite Hfs.
  rewrite header_length by exact Hlen.
  rewrite (py_slice_header 4 8) by (try exact Hlen; lia).
  change (N.to_nat 8 - N.to_nat 4) with 4. change (N.to_nat 4) with 4.
  destruct (bytes_eqb (take 4 (drop 4 content)) FTYP) eqn:Hftyp.
  - apply bytes_eqb_eq in Hftyp. contradiction.
  - split; reflexivity.
Qed.

Lemma check_streamable_not_mp4_is_truthy_witness :
  40 <= length (repeat x00 40) /\
  check_streamable (fun _ => Some (repeat x00 40)) "noise.bin"
  = Val (BoolAndSize false (-1)).
Proof.
  assert (Hlen : 40 <= length (repeat x00 40)) by (simpl; lia).
  assert (Hne : take 4 (drop 4 (repeat x00 40)) <> FTYP)
    by (simpl; discriminate).
  split; [exact Hlen |].
  exact (proj1 (check_streamable_not_mp4_is_truthy
                  (fun _ => Some (repeat x00 40)) "noise.bin" _ eq_refl Hlen Hne)).
Defined.

(** ** SSL and preview arguments *)

Lemma truthy_Some (o : option string) :
  truthy o = true -> exists s, o = Some s /\ s <> "" /\ path_of o = s.
Proof.
  destruct o as [s |]; simpl; [| discriminate].
  intros H. exists s. repeat split.
  intros ->. discriminate H.
Qed.

(** X16: arguments accepted by [validate_ssl_args] with mode MTLS or TLS
    never make [create_channel_credentials] raise RuntimeError, whatever
    is on disk (a missing file raises from [open] instead). *)
Theorem validated_credentials_no_runtime_error
    (fs : FileSystem) (args : Namespace) :
  validate_ssl_args args = Val tt ->
  ssl_mode args = "MTLS" \/ ssl_mode args = "TLS" ->
  forall msg, create_channel_credentials fs args <> Exc (RuntimeError msg).
Proof.
  intros Hval Hmode msg.
  unfold validate_ssl_args in Hval. unfold create_channel_credentials.
  destruct Hmode as [Hm | Hm]; rewrite Hm in *; simpl in *.
  - destruct (negb _); [discriminate Hval |].
    unfold read_file_content.
    destruct (fs (path_of (ssl_key args))); simpl; [| discriminate].
    destruct (fs (path_of (ssl_cert args))); simpl; [| discriminate].
    destruct (fs (path_of (ssl_root_cert args))); simpl; discriminate.
  - destruct (negb _); [discriminate Hval |].
    unfold read_file_content.
    destruct (fs (path_of (ssl_root_cert args))); simpl; discriminate.
Qed.

Lemma validated_credentials_no_runtime_error_witness :
  validate_ssl_args mtls_args = Val tt /\
  create_channel_credentials (fun _ => None) mtls_args
  <> Exc (RuntimeError MTLS_MESSAGE).
Proof.
  assert (Hval : validate_ssl_args mtls_args = Val tt) by reflexivity.
  split; [exact Hval |].
  exact (validated_credentials_no_runtime_error (fun _ => None) mtls_args
           Hval (or_introl eq_refl) MTLS_MESSAGE).
Defined.

(** X17: with mode MTLS, validated arguments and the three files
    readable, the credentials hold the content of the root certificate,
    of the private key and of the certificate chain, each from its own
    option. *)
Theorem mtls_credentials_from_files
    (fs : FileSystem) (args : Namespace) (key chain root : bytes) :
  validate_ssl_args args = Val tt ->
  ssl_mode args = "MTLS" ->
  fs (path_of (ssl_key args)) = Some key ->
  fs (path_of (ssl_cert args)) = Some chain ->
  fs (path_of (ssl_root_cert args)) = Some root ->
  create_channel_credentials fs args
  = Val (mkCredentials root (Some key) (Some chain)).
Proof.
  intros Hval Hm Hk Hc Hr.
  unfold validate_ssl_args in Hval. unfold create_channel_credentials.
  rewrite Hm in *. simpl in *.
  destruct (negb _); [discriminate Hval |].
  unfold read_file_content. rewrite Hk, Hc, Hr. reflexivity.
Qed.

Lemma mtls_credentials_from_files_witness :
  validate_ssl_args mtls_args = Val tt /\
  create_channel_credentials sample_fs mtls_args
  = Val (mkCredentials [x03] (Some [x01]) (Some [x02])).
Proof.
  assert (Hval : validate_ssl_args mtls_args = Val tt) by reflexivity.
  split; [exact Hval |].
  exact (mtls_credentials_from_files sample_fs mtls_args [x01] [x02] [x03]
           Hval eq_refl eq_refl eq_refl eq_refl).
Defined.

Lemma non_mtls_same_as_tls (fs : FileSystem) (args : Namespace) :
  ssl_mode args <> "MTLS" ->
  create_channel_credentials fs args
  = create_channel_credentials fs (with_ssl_mode "TLS" args).
Proof.
  intros Hm. unfold create_channel_credentials.
  apply String.eqb_neq in Hm. rewrite Hm. reflexivity.
Qed.

(** X18: every mode other than MTLS, DISABLED included, takes the TLS
    path: with the root certificate option set and the file readable the
    result is a credential built from the root certificate alone. *)
Theorem non_mtls_mode_is_tls
    (fs : FileSystem) (args : Namespace) (root : bytes) :
  ssl_mode args <> "MTLS" ->
  truthy (ssl_root_cert args) = true ->
  fs (path_of (ssl_root_cert args)) = Some root ->
  create_channel_credentials fs args = Val (mkCredentials root None None) /\
  create_channel_credentials fs args
  = create_channel_credentials fs (with_ssl_mode "TLS" args).
Proof.
  intros Hm Hroot Hfile. split; [| apply non_mtls_same_as_tls, Hm].
  unfold create_channel_credentials.
  apply String.eqb_neq in Hm. rewrite Hm, Hroot. simpl.
  unfold read_file_content. rewrite Hfile. reflexivity.
Qed.

Lemma non_mtls_mode_is_tls_witness :
  ssl_mode disabled_args <> "MTLS" /\
  create_channel_credentials sample_fs disabled_args
  = Val (mkCredentials [x03] None None).
Proof.
  assert (Hm : ssl_mode disabled_args <> "MTLS") by (simpl; discriminate).
  split; [exact Hm |].
  exact (proj1 (non_mtls_mode_is_tls sample_fs disabled_args [x03]
                  Hm eq_refl eq_refl)).
Defined.

(** X19: validation and construction disagree outside MTLS and TLS: with
    any other mode (DISABLED is the default) and no root certificate
    option, [validate_ssl_args] accepts the arguments and
    [create_channel_credentials] raises the RuntimeError of the TLS
    branch. *)
Theorem disabled_mode_needs_root_cert (fs : FileSystem) (args : Namespace) :
  ssl_mode args <> "MTLS" ->
  ssl_mode args <> "TLS" ->
  truthy (ssl_root_cert args) = false ->
  validate_ssl_args args = Val tt /\
  create_channel_credentials fs args = Exc (RuntimeError TLS_MESSAGE).
Proof.
  intros Hm Ht Hroot.
  apply String.eqb_neq in Hm. apply String.eqb_neq in Ht.
  unfold validate_ssl_args, create_channel_credentials.
  rewrite Hm, Ht, Hroot. split; reflexivity.
Qed.

Lemma disabled_mode_needs_root_cert_witness :
  validate_ssl_args disabled_no_root_args = Val tt /\
  create_channel_credentials sample_fs disabled_no_root_args
  = Exc (RuntimeError TLS_MESSAGE).
Proof.
  apply (disabled_mode_needs_root_cert sample_fs disabled_no_root_args);
    [simpl; discriminate | simpl; discriminate | reflexivity].
Defined.

(** X20: for arguments accepted by [validate_preview_args] with preview
    mode on, the API key and the function id are both present and not
    empty, and [create_request_metadata] returns the authorization entry
    "Bearer " followed by the key and the function-id entry. *)
Theorem validated_preview_metadata (args : Namespace) :
  validate_preview_args args = Val tt ->
  preview_mode args = true ->
  exists key fid,
    api_key args = Some key /\ key <> "" /\
    function_id args = Some fid /\ fid <> "" /\
    create_request_metadata args
    = Some (("authorization", "Bearer " +:+ key), ("function-id", Some fid)).
Proof.
  intros Hval Hp. unfold validate_preview_args in Hval.
  unfold create_request_metadata. rewrite Hp in *.
  destruct (truthy (api_key args)) eqn:Hk; [| discriminate Hval].
  destruct (truthy (function_id args)) eqn:Hf; [| discriminate Hval].
  apply truthy_Some in Hk as (key & Hk & Hkne & _).
  apply truthy_Some in Hf as (fid & Hf & Hfne & _).
  exists key, fid. rewrite Hk, Hf. repeat split; assumption.
Qed.

Lemma validated_preview_metadata_witness :
  validate_preview_args preview_args = Val tt /\
  create_request_metadata preview_args
  = Some (("authorization", "Bearer nvapi-key"), ("function-id", Some "fid-1")).
Proof.
  assert (Hval : validate_preview_args preview_args = Val tt) by reflexivity.
  split; [exact Hval |].
  destruct (validated_preview_metadata preview_args Hval eq_refl)
    as (key & fid & Hk & _ & Hf & _ & Hmeta).
  injection Hk as <-. injection Hf as <-. exact Hmeta.
Defined.


(** ** Protobuf wrapping, continued *)



